(** * imgproxy-url-builder: the modifier chain and the URL assembly

    A shallow embedding of [src/param-builder.ts] and of the transformers
    [src/transformers/rotate.ts] and [src/transformers/enlarge.ts].

    The builder keeps its tokens in a JavaScript array that every chain
    method mutates in place and that [clone] and [build] copy.  Arrays are
    therefore modelled as cells of a store, and the methods as computations
    in a state-and-failure monad over that store, so that aliasing between a
    chain, its clone and the working copy of [build] is visible. *)

From stdpp Require Import base option list gmap strings pretty.

(** ** The JavaScript runtime: a store of string arrays *)

Module Js.

(** A reference to an array. *)
Definition loc := positive.

(** The store maps each allocated reference to the array's elements. *)
Abbreviation heap := (gmap loc (list string)).

(** A computation reads and updates the store; [None] is a dereference of
    a reference that was never allocated. *)
Definition M (A : Type) : Type := heap → option (A * heap).

#[export] Instance M_ret : MRet M := λ A (a : A) h, Some (a, h).

#[export] Instance M_bind : MBind M := λ A B (f : A → M B) (m : M A) h,
  match m h with
  | Some (a, h') => f a h'
  | None => None
  end.

(** The value a computation returns, when it returns. *)
Definition result {A} (m : M A) (h : heap) : option A := fst <$> m h.

(** An array literal [[x1, ..., xn]]: a new array at an unused reference. *)
Definition array_new (items : list string) : M loc := λ h,
  let l := fresh (dom h) in Some (l, <[l := items]> h).

(** The elements of [arr]. *)
Definition array_read (arr : loc) : M (list string) := λ h,
  items ← h !! arr; Some (items, h).

(** [arr.push(x1, ..., xn)]: appends in place, returns the new length. *)
Definition array_push (arr : loc) (xs : list string) : M nat := λ h,
  items ← h !! arr;
  Some (length (items ++ xs), <[arr := items ++ xs]> h).

(** [[...arr]]: a new array with the elements of [arr]. *)
Definition array_spread (arr : loc) : M loc :=
  items ← array_read arr; array_new items.

(** [arr.join(sep)] on an array of strings. *)
Definition array_join (arr : loc) (sep : string) : M string :=
  items ← array_read arr; mret (String.concat sep items).

(** Truthiness of an optional string: [undefined] and the empty string are falsy. *)
Definition truthy (s : option string) : bool :=
  match s with
  | Some s => negb (String.eqb s EmptyString)
  | None => false
  end.

(** Truthiness of an optional boolean. *)
Definition truthy_bool (b : option bool) : bool :=
  match b with
  | Some b => b
  | None => false
  end.

End Js.

Import Js.

(** ** Numbers

    A JavaScript number and its rendering by string conversion belong to the
    language runtime; the development is parametric in them.  Integer
    literals of the source are injected with [Number_ofZ]. *)

Class Numbers := {
  number : Type;
  Number_toString : number → string;
  Number_ofZ : Z → number;
}.

(** ** [utils]: the helpers imported by the builder and the transformers *)

(** [encodeFilePath] and [generateSignature] are imported from [./utils],
    which is not among the sources; [build] is verified for every
    implementation of them. *)
Class Utils := {
  encodeFilePath : string → string;
  generateSignature : string → string → string → string;
}.

Section stringify.
Context `{Numbers}.

(** The values a transformer hands to the stringifier. *)
Inductive primitive :=
| PBool (b : bool)
| PNumber (n : number)
| PString (s : string)
| PNull.

Definition is_null (v : primitive) : bool :=
  match v with PNull => true | _ => false end.

(** Modelled from the spec: the canonical textual form of a value in the
    stringifier of [utils]/[common], which is not among the sources.
    Booleans render as 1/0, numbers in decimal, strings verbatim; a null
    that is not trailing is rendered empty. *)
Definition render (v : primitive) : string :=
  match v with
  | PBool true => "1"
  | PBool false => "0"
  | PNumber n => Number_toString n
  | PString s => s
  | PNull => EmptyString
  end.

(** Modelled from the spec: the stringifier drops a trailing run of
    null/absent values. *)
Fixpoint drop_trailing_null (values : list primitive) : list primitive :=
  match values with
  | [] => []
  | v :: rest =>
      match drop_trailing_null rest with
      | [] => if is_null v then [] else [v]
      | rest' => v :: rest'
      end
  end.

(** Modelled from the spec: [stringifyOptions] of [utils]/[common], which
    is not among the sources.  It renders the prefix and then, for each
    value in order, a colon followed by the value's textual form. *)
Definition stringifyOptions (prefix : string) (values : list primitive)
  : string :=
  foldl (λ acc v, acc +:+ ":" +:+ render v) prefix
        (drop_trailing_null values).

End stringify.

(** ** The transformers *)

Module transformers.

(** The encoders of [src/transformers] whose files are not among the
    sources, with their option types; the builder is verified for every
    implementation of them. *)
Class Encoders := {
  BackgroundOptions : Type;
  BlurOptions : Type;
  CacheBusterOptions : Type;
  CropOptions : Type;
  DprOptions : Type;
  FileNameOptions : Type;
  FormatOptions : Type;
  GravityOptions : Type;
  MaxBytesOptions : Type;
  PaddingOptions : Type;
  PresetOptions : Type;
  QualityOptions : Type;
  ResizeOptions : Type;
  SharpenOptions : Type;
  TrimOptions : Type;
  WatermarkOptions : Type;
  autoRotate : string;
  background : BackgroundOptions → string;
  blur : BlurOptions → string;
  cacheBuster : CacheBusterOptions → string;
  crop : CropOptions → string;
  dpr : DprOptions → string;
  fileName : FileNameOptions → string;
  format : FormatOptions → string;
  gravity : GravityOptions → string;
  maxBytes : MaxBytesOptions → string;
  pad : PaddingOptions → string;
  preset : PresetOptions → string;
  quality : QualityOptions → string;
  resize : ResizeOptions → string;
  sharpen : SharpenOptions → string;
  stripColorProfile : string;
  stripMetadata : string;
  trim : TrimOptions → string;
  watermark : WatermarkOptions → string;
}.

Section known.
Context `{Numbers}.

(** [type RotationOptions = 90 | 180 | 270] *)
Inductive RotationOptions := Rot90 | Rot180 | Rot270.

Definition angle_number (angle : RotationOptions) : number :=
  match angle with
  | Rot90 => Number_ofZ 90
  | Rot180 => Number_ofZ 180
  | Rot270 => Number_ofZ 270
  end.

(** [rotate.ts]: [stringifyOptions('rot', [angle])] *)
Definition rotate (angle : RotationOptions) : string :=
  stringifyOptions "rot" [PNumber (angle_number angle)].

(** [enlarge.ts]: [stringifyOptions('el', [true])] *)
Definition enlarge : string :=
  stringifyOptions "el" [PBool true].

(** [type BackgroundAlphaOptions = number] *)
Definition BackgroundAlphaOptions : Type := number.

(** [enlarge.ts]: [stringifyOptions('bga', [percentage])] *)
Definition backgroundAlpha (percentage : BackgroundAlphaOptions) : string :=
  stringifyOptions "bga" [PNumber percentage].

End known.

End transformers.

(** ** [param-builder.ts] *)

Module ParamBuilder.

(** [class ParamBuilder { public readonly modifiers: string[] }]: the field
    is read-only, so an instance is the reference to its array; two handles
    on one instance are equal values. *)
Record t := { modifiers : loc }.

(** [signature?: { key: string; salt: string }] *)
Record Signature := { key : string; salt : string }.

(** The argument of [build].  The declared type makes [path] mandatory, but
    the body tests it, and [build({})] reaches it at run time: every field
    may be [undefined]. *)
Record BuildOptions := {
  path : option string;
  baseUrl : option string;
  plain : option bool;
  signature : option Signature;
}.

(** The empty object of [options ?? {}]. *)
Definition no_options : BuildOptions :=
  {| path := None; baseUrl := None; plain := None; signature := None |}.

Section methods.
Context `{Numbers} `{Utils} `{transformers.Encoders}.

(** [constructor(initialModifiers: string[] = [])]: the instance keeps the
    array it is given, and a new empty one when it is given none. *)
Definition new (initialModifiers : option loc) : M t :=
  match initialModifiers with
  | Some arr => mret {| modifiers := arr |}
  | None => arr ← array_new []; mret {| modifiers := arr |}
  end.

(** [clone]: [new ParamBuilder([...this.modifiers])] *)
Definition clone (this : t) : M t :=
  arr ← array_spread (modifiers this);
  new (Some arr).

(** [build(options?)].  After the test [!path] the path is a non-empty
    string, which [default] reads off. *)
Definition build (this : t) (options : option BuildOptions) : M string :=
  let o := default no_options options in
  if negb (truthy (path o)) then array_join (modifiers this) "/"
  else
    let p := default EmptyString (path o) in
    mods ← array_spread (modifiers this);
    (if truthy (path o) && truthy_bool (plain o)
     then array_push mods ["plain"; p]
     else array_push mods [encodeFilePath p]);;
    res ← array_join mods "/";
    let finalPath :=
      match signature o with
      | Some sg => generateSignature res (key sg) (salt sg) +:+ "/" +:+ res
      | None => res
      end in
    mret (if truthy (baseUrl o)
          then default EmptyString (baseUrl o) +:+ "/" +:+ finalPath
          else "/" +:+ finalPath).

(** The chain methods: each pushes the token of its transformer onto
    [this.modifiers] and returns [this]. *)
Definition autoRotate (this : t) : M t :=
  array_push (modifiers this) [transformers.autoRotate];; mret this.

Definition background (this : t) (options : transformers.BackgroundOptions)
  : M t :=
  array_push (modifiers this) [transformers.background options];; mret this.

Definition blur (this : t) (options : transformers.BlurOptions) : M t :=
  array_push (modifiers this) [transformers.blur options];; mret this.

Definition cacheBuster (this : t) (options : transformers.CacheBusterOptions)
  : M t :=
  array_push (modifiers this) [transformers.cacheBuster options];; mret this.

Definition crop (this : t) (options : transformers.CropOptions) : M t :=
  array_push (modifiers this) [transformers.crop options];; mret this.

Definition dpr (this : t) (options : transformers.DprOptions) : M t :=
  array_push (modifiers this) [transformers.dpr options];; mret this.

Definition filename (this : t) (options : transformers.FileNameOptions)
  : M t :=
  array_push (modifiers this) [transformers.fileName options];; mret this.

Definition format (this : t) (options : transformers.FormatOptions) : M t :=
  array_push (modifiers this) [transformers.format options];; mret this.

Definition gravity (this : t) (options : transformers.GravityOptions) : M t :=
  array_push (modifiers this) [transformers.gravity options];; mret this.

Definition maxBytes (this : t) (options : transformers.MaxBytesOptions)
  : M t :=
  array_push (modifiers this) [transformers.maxBytes options];; mret this.

Definition pad (this : t) (options : transformers.PaddingOptions) : M t :=
  array_push (modifiers this) [transformers.pad options];; mret this.

Definition preset (this : t) (options : transformers.PresetOptions) : M t :=
  array_push (modifiers this) [transformers.preset options];; mret this.

Definition quality (this : t) (options : transformers.QualityOptions) : M t :=
  array_push (modifiers this) [transformers.quality options];; mret this.

Definition resize (this : t) (options : transformers.ResizeOptions) : M t :=
  array_push (modifiers this) [transformers.resize options];; mret this.

Definition rotate (this : t) (options : transformers.RotationOptions) : M t :=
  array_push (modifiers this) [transformers.rotate options];; mret this.

Definition sharpen (this : t) (options : transformers.SharpenOptions) : M t :=
  array_push (modifiers this) [transformers.sharpen options];; mret this.

Definition stripColorProfile (this : t) : M t :=
  array_push (modifiers this) [transformers.stripColorProfile];; mret this.

Definition stripMetadata (this : t) : M t :=
  array_push (modifiers this) [transformers.stripMetadata];; mret this.

Definition trim (this : t) (options : transformers.TrimOptions) : M t :=
  array_push (modifiers this) [transformers.trim options];; mret this.

Definition watermark (this : t) (options : transformers.WatermarkOptions)
  : M t :=
  array_push (modifiers this) [transformers.watermark options];; mret this.

(** [const pb = (): ParamBuilder => new ParamBuilder()] *)
Definition pb : M t := new None.

(** *** Chains of calls *)

(** One invocation of a chain method, with its argument. *)
Inductive call :=
| AutoRotate
| Background (options : transformers.BackgroundOptions)
| Blur (options : transformers.BlurOptions)
| CacheBuster (options : transformers.CacheBusterOptions)
| Crop (options : transformers.CropOptions)
| Dpr (options : transformers.DprOptions)
| Filename (options : transformers.FileNameOptions)
| Format (options : transformers.FormatOptions)
| Gravity (options : transformers.GravityOptions)
| MaxBytes (options : transformers.MaxBytesOptions)
| Pad (options : transformers.PaddingOptions)
| Preset (options : transformers.PresetOptions)
| Quality (options : transformers.QualityOptions)
| Resize (options : transformers.ResizeOptions)
| Rotate (options : transformers.RotationOptions)
| Sharpen (options : transformers.SharpenOptions)
| StripColorProfile
| StripMetadata
| Trim (options : transformers.TrimOptions)
| Watermark (options : transformers.WatermarkOptions).

(** [this.m(options)] *)
Definition invoke (c : call) (this : t) : M t :=
  match c with
  | AutoRotate => autoRotate this
  | Background o => background this o
  | Blur o => blur this o
  | CacheBuster o => cacheBuster this o
  | Crop o => crop this o
  | Dpr o => dpr this o
  | Filename o => filename this o
  | Format o => format this o
  | Gravity o => gravity this o
  | MaxBytes o => maxBytes this o
  | Pad o => pad this o
  | Preset o => preset this o
  | Quality o => quality this o
  | Resize o => resize this o
  | Rotate o => rotate this o
  | Sharpen o => sharpen this o
  | StripColorProfile => stripColorProfile this
  | StripMetadata => stripMetadata this
  | Trim o => trim this o
  | Watermark o => watermark this o
  end.

(** The fluent chain [this.m1(o1).m2(o2)...]: each method is invoked on the
    handle the previous one returned. *)
Fixpoint invoke_all (cs : list call) (this : t) : M t :=
  match cs with
  | [] => mret this
  | c :: cs => this' ← invoke c this; invoke_all cs this'
  end.

(** The token the transformer of a call computes. *)
Definition token (c : call) : string :=
  match c with
  | AutoRotate => transformers.autoRotate
  | Background o => transformers.background o
  | Blur o => transformers.blur o
  | CacheBuster o => transformers.cacheBuster o
  | Crop o => transformers.crop o
  | Dpr o => transformers.dpr o
  | Filename o => transformers.fileName o
  | Format o => transformers.format o
  | Gravity o => transformers.gravity o
  | MaxBytes o => transformers.maxBytes o
  | Pad o => transformers.pad o
  | Preset o => transformers.preset o
  | Quality o => transformers.quality o
  | Resize o => transformers.resize o
  | Rotate o => transformers.rotate o
  | Sharpen o => transformers.sharpen o
  | StripColorProfile => transformers.stripColorProfile
  | StripMetadata => transformers.stripMetadata
  | Trim o => transformers.trim o
  | Watermark o => transformers.watermark o
  end.

End methods.

(** *** The declared types of the handles

    Every chain method is declared
    [m<T extends ForwardType>(this: T, ...): Omit<T, K>]: invoked on a handle
    of type [T] it yields a handle of type [Omit<T, K>].  Of a handle's type
    only the chain methods it still has matter here. *)

(** The names of the chain methods. *)
Inductive method :=
| autoRotate_ | background_ | blur_ | cacheBuster_ | crop_ | dpr_ | filename_
| format_ | gravity_ | maxBytes_ | pad_ | preset_ | quality_ | resize_
| rotate_ | sharpen_ | stripColorProfile_ | stripMetadata_ | trim_
| watermark_.

#[export] Instance method_eq_dec : EqDecision method.
Proof. solve_decision. Defined.

(** The key [K] in the declared return type [Omit<T, K>] of each method. *)
Definition omitted (m : method) : method :=
  match m with
  | autoRotate_ => autoRotate_
  | background_ => background_
  | blur_ => blur_
  | cacheBuster_ => cacheBuster_
  | crop_ => crop_
  | dpr_ => dpr_
  | filename_ => dpr_
  | format_ => format_
  | gravity_ => gravity_
  | maxBytes_ => maxBytes_
  | pad_ => pad_
  | preset_ => preset_
  | quality_ => quality_
  | resize_ => resize_
  | rotate_ => rotate_
  | sharpen_ => sharpen_
  | stripColorProfile_ => stripColorProfile_
  | stripMetadata_ => stripMetadata_
  | trim_ => trim_
  | watermark_ => watermark_
  end.

(** A handle type, as the list of chain methods it has. *)
Definition handle := list method.

(** The type [ParamBuilder] of the handle [pb()] yields. *)
Definition ParamBuilder_methods : handle :=
  [autoRotate_; background_; blur_; cacheBuster_; crop_; dpr_; filename_;
   format_; gravity_; maxBytes_; pad_; preset_; quality_; resize_; rotate_;
   sharpen_; stripColorProfile_; stripMetadata_; trim_; watermark_].

(** [Omit<T, K>] *)
Definition Omit (T : handle) (K : method) : handle :=
  filter (λ m, m ≠ K) T.

(** A fluent chain [h.m1(..).m2(..)...] on a handle of type [T] type-checks
    when each method is a member of the type of the handle it is invoked
    on. *)
Fixpoint typechecks (T : handle) (chain : list method) : bool :=
  match chain with
  | [] => true
  | m :: chain =>
      bool_decide (m ∈ T) && typechecks (Omit T (omitted m)) chain
  end.

Section kinds.
Context `{transformers.Encoders}.

(** The method a call invokes. *)
Definition method_of (c : call) : method :=
  match c with
  | AutoRotate => autoRotate_
  | Background _ => background_
  | Blur _ => blur_
  | CacheBuster _ => cacheBuster_
  | Crop _ => crop_
  | Dpr _ => dpr_
  | Filename _ => filename_
  | Format _ => format_
  | Gravity _ => gravity_
  | MaxBytes _ => maxBytes_
  | Pad _ => pad_
  | Preset _ => preset_
  | Quality _ => quality_
  | Resize _ => resize_
  | Rotate _ => rotate_
  | Sharpen _ => sharpen_
  | StripColorProfile => stripColorProfile_
  | StripMetadata => stripMetadata_
  | Trim _ => trim_
  | Watermark _ => watermark_
  end.

End kinds.

End ParamBuilder.

Import ParamBuilder.

(** ** The assembled path, in the words of the specification

    The specification describes [build] on the token sequence alone.  These
    definitions follow its wording; the theorems below compare them with the
    method. *)

Section assembled.
Context `{Utils}.

(** The file segment: the pair [plain], raw path in plain mode, and the
    single encoded component otherwise. *)
Definition spec_file_segment (plain : option bool) (p : string)
  : list string :=
  if bool_decide (plain = Some true) then ["plain"; p]
  else [encodeFilePath p].

(** The core path: the tokens and the file segment, joined by a slash. *)
Definition spec_core_path (tokens : list string) (plain : option bool)
  (p : string) : string :=
  String.concat "/" (tokens ++ spec_file_segment plain p).

(** The final path: the core path, preceded by its signature when signing
    is requested. *)
Definition spec_final_path (signature : option Signature) (core : string)
  : string :=
  match signature with
  | Some sg => generateSignature core (key sg) (salt sg) +:+ "/" +:+ core
  | None => core
  end.

(** The result: the final path after the base URL when one is given and
    non-empty, after a lone slash otherwise. *)
Definition spec_with_base (baseUrl : option string) (final : string)
  : string :=
  match baseUrl with
  | Some b => if decide (b = EmptyString) then "/" +:+ final
              else b +:+ "/" +:+ final
  | None => "/" +:+ final
  end.

(** The path is usable when it is present and non-empty. *)
Definition spec_path (options : option BuildOptions) : option string :=
  o ← options; p ← path o; if decide (p = EmptyString) then None else Some p.

Definition spec_build (tokens : list string) (options : option BuildOptions)
  : string :=
  match spec_path options with
  | None => String.concat "/" tokens
  | Some p =>
      let o := default no_options options in
      spec_with_base (baseUrl o)
        (spec_final_path (signature o) (spec_core_path tokens (plain o) p))
  end.

(** The store after [build]: unchanged in the bare form, and extended with
    the working copy otherwise. *)
Definition spec_build_store (tokens : list string)
  (options : option BuildOptions) (h : heap) : heap :=
  match spec_path options with
  | None => h
  | Some p =>
      <[fresh (dom h) :=
          tokens ++ spec_file_segment (plain (default no_options options)) p]> h
  end.

End assembled.

(** The number of tokens a list of calls asks of a method. *)
Definition invocations `{transformers.Encoders} (m : method)
  (cs : list call) : nat :=
  length (filter (λ c, method_of c = m) cs).

(** The modifier table of the specification: each modifier with its
    prefix. *)
Definition spec_modifier_table : list (string * string) :=
  [("resize", "rs"); ("crop", "c"); ("gravity", "g"); ("quality", "q");
   ("format", "f"); ("blur", "blur"); ("sharpen", "sh"); ("background", "bg");
   ("padding", "pd"); ("dpr", "dpr"); ("rotate", "rot"); ("auto-rotate", "ar");
   ("strip-metadata", "sm"); ("strip-color-profile", "scp"); ("trim", "t");
   ("preset", "pr"); ("max-bytes", "mb"); ("cache-buster", "cb");
   ("filename", "fn"); ("watermark", "wm")].

(** ** An instance to run the model on *)

Module Demo.

(** Numbers that are integers, in decimal. *)
Definition numbers : Numbers :=
  {| number := Z; Number_toString := pretty; Number_ofZ := id |}.

Definition base64url_alphabet : string :=
  "ABCDEFGHIJKLMNOPQRSTUVWXYZabcdefghijklmnopqrstuvwxyz0123456789-_".

Definition sextet (n : N) : Ascii.ascii :=
  default (Ascii.ascii_of_nat 65) (String.get (N.to_nat n) base64url_alphabet).

(** Modelled from the spec: the base64url encoding, without padding, of a
    sequence of bytes, which is what [encodeFilePath] of [utils] (not among
    the sources) is specified to compute. *)
Fixpoint base64url (bytes : list N) : string :=
  match bytes with
  | a :: b :: c :: rest =>
      String (sextet (N.shiftr a 2))
        (String (sextet (N.lor (N.shiftl (N.land a 3) 4) (N.shiftr b 4)))
           (String (sextet (N.lor (N.shiftl (N.land b 15) 2) (N.shiftr c 6)))
              (String (sextet (N.land c 63)) (base64url rest))))
  | [a; b] =>
      String (sextet (N.shiftr a 2))
        (String (sextet (N.lor (N.shiftl (N.land a 3) 4) (N.shiftr b 4)))
           (String (sextet (N.shiftl (N.land b 15) 2)) EmptyString))
  | [a] =>
      String (sextet (N.shiftr a 2))
        (String (sextet (N.shiftl (N.land a 3) 4)) EmptyString)
  | [] => EmptyString
  end.

Definition bytes_of (s : string) : list N :=
  map Ascii.N_of_ascii (String.list_ascii_of_string s).

(** The keyed digest is replaced by a stand-in that depends on the salt, the
    message and the key; the theorems hold for every signing function. *)
Definition utils : Utils :=
  {| encodeFilePath := λ p, base64url (bytes_of p);
     generateSignature := λ message key salt,
       base64url (bytes_of (key +:+ ":" +:+ salt +:+ message)) |}.

(** Encoders that take the values of their token directly and render them
    after the prefix of the specification's table. *)
Definition encoders : transformers.Encoders :=
  let values := @primitive numbers in
  let stringify := @stringifyOptions numbers in
  {| transformers.BackgroundOptions := list values;
     transformers.BlurOptions := list values;
     transformers.CacheBusterOptions := list values;
     transformers.CropOptions := list values;
     transformers.DprOptions := list values;
     transformers.FileNameOptions := list values;
     transformers.FormatOptions := list values;
     transformers.GravityOptions := list values;
     transformers.MaxBytesOptions := list values;
     transformers.PaddingOptions := list values;
     transformers.PresetOptions := list values;
     transformers.QualityOptions := list values;
     transformers.ResizeOptions := list values;
     transformers.SharpenOptions := list values;
     transformers.TrimOptions := list values;
     transformers.WatermarkOptions := list values;
     transformers.autoRotate := "ar";
     transformers.background := stringify "bg";
     transformers.blur := stringify "blur";
     transformers.cacheBuster := stringify "cb";
     transformers.crop := stringify "c";
     transformers.dpr := stringify "dpr";
     transformers.fileName := stringify "fn";
     transformers.format := stringify "f";
     transformers.gravity := stringify "g";
     transformers.maxBytes := stringify "mb";
     transformers.pad := stringify "pd";
     transformers.preset := stringify "pr";
     transformers.quality := stringify "q";
     transformers.resize := stringify "rs";
     transformers.sharpen := stringify "sh";
     transformers.stripColorProfile := "scp";
     transformers.stripMetadata := "sm";
     transformers.trim := stringify "t";
     transformers.watermark := stringify "wm" |}.

(** A store with one chain of two tokens, and the chain. *)
Definition store0 : heap := {[ 1%positive := ["rs:fit:300:200"; "q:80"] ]}.
Definition chain0 : ParamBuilder.t := {| modifiers := 1%positive |}.

Definition options0 : BuildOptions :=
  {| path := Some "/a.png"; baseUrl := Some "https://cdn.example";
     plain := None; signature := None |}.

Definition signature0 : Signature := {| key := "K"; salt := "S" |}.

(** The same with a signature, in plain mode, and without a path. *)
Definition options_signed : BuildOptions :=
  {| path := Some "/a.png"; baseUrl := Some "https://cdn.example";
     plain := None; signature := Some signature0 |}.

Definition options_plain : BuildOptions :=
  {| path := Some "/a.png"; baseUrl := None;
     plain := Some true; signature := None |}.

Definition options_no_path : BuildOptions :=
  {| path := None; baseUrl := Some "https://cdn.example";
     plain := None; signature := Some signature0 |}.

(** Two invocations: [.blur(5).rotate(90)]. *)
Definition calls0 : list (@call encoders) :=
  [@Blur encoders [@PNumber numbers 5%Z]; @Rotate encoders transformers.Rot90].

End Demo.

Example demo_encoded_segment :
  @encodeFilePath Demo.utils "/img.jpg" = "L2ltZy5qcGc".
Proof. reflexivity. Qed.

Example demo_rotate :
  @transformers.rotate Demo.numbers transformers.Rot270 = "rot:270".
Proof. reflexivity. Qed.

Example demo_backgroundAlpha_above_range :
  @transformers.backgroundAlpha Demo.numbers 7%Z = "bga:7".
Proof. reflexivity. Qed.

Example demo_backgroundAlpha_below_range :
  @transformers.backgroundAlpha Demo.numbers (-3)%Z = "bga:-3".
Proof. reflexivity. Qed.

Example demo_trailing_null_dropped :
  @stringifyOptions Demo.numbers "g"
    [PString "no"; @PNull Demo.numbers; @PNull Demo.numbers] = "g:no".
Proof. reflexivity. Qed.

Example demo_scenario_2 :
  result (@build Demo.utils Demo.chain0 (Some Demo.options0)) Demo.store0
  = Some "https://cdn.example/rs:fit:300:200/q:80/L2EucG5n".
Proof. vm_compute. reflexivity. Qed.

(** ** The store operations *)

Lemma bind_run {A B} (m : M A) (f : A → M B) (h h' : heap) (a : A) :
  m h = Some (a, h') → (m ≫= f) h = f a h'.
Proof. intros Hm. unfold mbind, M_bind. by rewrite Hm. Qed.

Lemma array_read_run (arr : loc) (items : list string) (h : heap) :
  h !! arr = Some items → array_read arr h = Some (items, h).
Proof. intros Hl. unfold array_read. by rewrite Hl. Qed.

Lemma array_push_run (arr : loc) (items xs : list string) (h : heap) :
  h !! arr = Some items →
  array_push arr xs h
  = Some (length (items ++ xs), <[arr := items ++ xs]> h).
Proof. intros Hl. unfold array_push. by rewrite Hl. Qed.

Lemma fresh_unallocated (h : heap) : h !! fresh (dom h) = None.
Proof. apply not_elem_of_dom, is_fresh. Qed.

Lemma fresh_ne (h : heap) (arr : loc) (items : list string) :
  h !! arr = Some items → fresh (dom h) ≠ arr.
Proof. intros Hl Heq. pose proof (fresh_unallocated h). congruence. Qed.

Lemma array_spread_run (arr : loc) (items : list string) (h : heap) :
  h !! arr = Some items →
  array_spread arr h = Some (fresh (dom h), <[fresh (dom h) := items]> h).
Proof.
  intros Hl. unfold array_spread.
  by rewrite (bind_run _ _ _ _ _ (array_read_run _ _ _ Hl)).
Qed.

Lemma array_join_run (arr : loc) (sep : string) (items : list string)
  (h : heap) :
  h !! arr = Some items →
  array_join arr sep h = Some (String.concat sep items, h).
Proof.
  intros Hl. unfold array_join.
  by rewrite (bind_run _ _ _ _ _ (array_read_run _ _ _ Hl)).
Qed.

Lemma truthy_spec (s : option string) :
  truthy s = true ↔ ∃ p, s = Some p ∧ p ≠ EmptyString.
Proof.
  destruct s as [p|]; simpl.
  - rewrite negb_true_iff. split.
    + intros Hp. exists p. split; [done|]. intros ->. by simpl in Hp.
    + intros (q & [= <-] & Hq). by apply String.eqb_neq.
  - split; [done|]. by intros (p & ? & _).
Qed.

(** ** The chain methods *)

Section chain.
Context `{Numbers} `{Utils} `{transformers.Encoders}.

(** A method invoked on a chain with tokens [ts] appends its token to the
    chain's own array and returns the handle it was invoked on. *)
Lemma invoke_run (c : call) (this : t) (ts : list string) (h : heap) :
  h !! modifiers this = Some ts →
  invoke c this h
  = Some (this, <[modifiers this := ts ++ [token c]]> h).
Proof.
  intros Hl.
  destruct c; simpl;
    unfold autoRotate, background, blur, cacheBuster, crop, dpr, filename,
      format, gravity, maxBytes, pad, preset, quality, resize, rotate,
      sharpen, stripColorProfile, stripMetadata, trim, watermark;
    by rewrite (bind_run _ _ _ _ _ (array_push_run _ _ _ _ Hl)).
Qed.

Lemma invoke_all_run (cs : list call) (this : t) (ts : list string)
  (h : heap) :
  h !! modifiers this = Some ts →
  invoke_all cs this h
  = Some (this, <[modifiers this := ts ++ map token cs]> h).
Proof.
  revert ts h. induction cs as [|c cs IH]; intros ts h Hl; simpl.
  - rewrite app_nil_r, insert_id; done.
  - rewrite (bind_run _ _ _ _ _ (invoke_run c _ _ _ Hl)).
    rewrite (IH (ts ++ [token c])) by apply lookup_insert_eq.
    by rewrite insert_insert_eq, <- app_assoc.
Qed.

(** [pb()] yields a chain on a new, empty array. *)
Lemma pb_run (h : heap) :
  pb h = Some ({| modifiers := fresh (dom h) |}, <[fresh (dom h) := []]> h).
Proof. reflexivity. Qed.

(** [clone] yields a chain on a new array with the same tokens. *)
Lemma clone_run (this : t) (ts : list string) (h : heap) :
  h !! modifiers this = Some ts →
  clone this h
  = Some ({| modifiers := fresh (dom h) |}, <[fresh (dom h) := ts]> h).
Proof.
  intros Hl. unfold clone.
  by rewrite (bind_run _ _ _ _ _ (array_spread_run _ _ _ Hl)).
Qed.

(** *** [build] against the specification's description *)

Lemma spec_path_truthy (options : option BuildOptions) :
  spec_path options
  = if truthy (path (default no_options options))
    then path (default no_options options) else None.
Proof.
  destruct options as [o|]; [|done]. simpl.
  destruct (path o) as [p|]; [|done]. simpl.
  destruct (decide (p = EmptyString)) as [->|Hp]; [done|].
  by apply String.eqb_neq in Hp as ->.
Qed.

Lemma spec_with_base_truthy (baseUrl : option string) (final : string) :
  spec_with_base baseUrl final
  = if truthy baseUrl then default EmptyString baseUrl +:+ "/" +:+ final
    else "/" +:+ final.
Proof.
  destruct baseUrl as [b|]; [|done]. simpl.
  destruct (decide (b = EmptyString)) as [->|Hb]; [done|].
  by apply String.eqb_neq in Hb as ->.
Qed.

Lemma truthy_bool_decide (plain : option bool) :
  truthy_bool plain = bool_decide (plain = Some true).
Proof. by destruct plain as [[]|]. Qed.

(** [build] refines the specification's description, and tells what it
    does to the store. *)
Lemma build_run (this : t) (options : option BuildOptions)
  (ts : list string) (h : heap) :
  h !! modifiers this = Some ts →
  build this options h
  = Some (spec_build ts options, spec_build_store ts options h).
Proof.
  intros Hl. unfold build, spec_build, spec_build_store.
  rewrite spec_path_truthy.
  set (o := default no_options options).
  destruct (truthy (path o)) eqn:Hp; simpl.
  - apply truthy_spec in Hp as (p & Hpo & Hp). rewrite Hpo. simpl.
    rewrite spec_with_base_truthy.
    rewrite (bind_run _ _ _ _ _ (array_spread_run _ _ _ Hl)).
    unfold spec_core_path, spec_file_segment.
    rewrite <- truthy_bool_decide.
    set (l := fresh (dom h)).
    assert (Hc : <[l := ts]> h !! l = Some ts) by apply lookup_insert_eq.
    destruct (truthy_bool (plain o)).
    + rewrite (bind_run _ _ _ _ _ (array_push_run _ _ _ _ Hc)).
      rewrite insert_insert_eq.
      by rewrite (bind_run _ _ _ _ _
                    (array_join_run _ _ _ _ (lookup_insert_eq _ _ _))).
    + rewrite (bind_run _ _ _ _ _ (array_push_run _ _ _ _ Hc)).
      rewrite insert_insert_eq.
      by rewrite (bind_run _ _ _ _ _
                    (array_join_run _ _ _ _ (lookup_insert_eq _ _ _))).
  - by apply array_join_run.
Qed.

(** [build] leaves every array that was allocated before it as it was. *)
Lemma spec_build_store_frame (ts items : list string)
  (options : option BuildOptions) (h : heap) (arr : loc) :
  h !! arr = Some items →
  spec_build_store ts options h !! arr = Some items.
Proof.
  intros Hl. unfold spec_build_store.
  destruct (spec_path options); [|done].
  rewrite lookup_insert_ne; [done|]. by eapply fresh_ne.
Qed.

End chain.

(** ** The assembly of the URL *)

Section assembly.
Context `{Numbers} `{Utils} `{transformers.Encoders}.

(** C1: when [build] is given a non-empty path and a signature, the result
    is the base-URL or leading-slash prefix followed by the final path
    [sign(corePath, key, salt) + "/" + corePath], where the core path is the
    chain's tokens followed by the file segment, joined by a slash; the
    signing function receives exactly this core path, in which neither the
    base URL nor the leading slash occurs. *)
Theorem build_signature_covers_core_path (this : t) (o : BuildOptions)
  (p : string) (sg : Signature) (ts : list string) (h : heap) :
  h !! modifiers this = Some ts →
  path o = Some p →
  p ≠ EmptyString →
  signature o = Some sg →
  let corePath := String.concat "/" (ts ++ spec_file_segment (plain o) p) in
  let finalPath :=
    generateSignature corePath (key sg) (salt sg) +:+ "/" +:+ corePath in
  result (build this (Some o)) h
  = Some (if truthy (baseUrl o)
          then default EmptyString (baseUrl o) +:+ "/" +:+ finalPath
          else "/" +:+ finalPath).
Proof.
  intros Hl Hpath Hp Hsg corePath finalPath. unfold result.
  rewrite (build_run _ _ _ _ Hl). simpl. f_equal.
  unfold spec_build. simpl. rewrite Hpath. simpl.
  destruct (decide (p = EmptyString)) as [|_]; [done|].
  by rewrite Hsg, spec_with_base_truthy.
Qed.

(** C2: without options, or with options whose path is absent or empty,
    [build] returns the chain's tokens joined by a slash and nothing else:
    no file segment, no signature and no base URL, whatever the options say
    about them, and no failure; for an empty chain this is the empty
    string.  The store is left as it was. *)
Theorem build_without_path (this : t) (options : option BuildOptions)
  (ts : list string) (h : heap) :
  h !! modifiers this = Some ts →
  options = None
  ∨ (∃ o, options = Some o ∧ (path o = None ∨ path o = Some EmptyString)) →
  build this options h = Some (String.concat "/" ts, h)
  ∧ (ts = [] → result (build this options) h = Some EmptyString).
Proof.
  intros Hl Hopt.
  assert (Hb : build this options h = Some (String.concat "/" ts, h)).
  { rewrite (build_run _ _ _ _ Hl). unfold spec_build, spec_build_store.
    destruct Hopt as [->|(o & -> & [Hp|Hp])]; simpl; by rewrite ?Hp. }
  split; [done|]. intros ->. unfold result. by rewrite Hb.
Qed.

(** C3: for a non-empty path, the working copy of the tokens receives after
    them, in plain mode, exactly the two components [plain] and the raw
    path as given, and otherwise exactly the one component
    [encodeFilePath(path)]; the result is assembled from that sequence.
    The two forms are distinct and exactly one of them applies. *)
Theorem build_file_segment (this : t) (o : BuildOptions) (p : string)
  (ts : list string) (h : heap) :
  h !! modifiers this = Some ts →
  path o = Some p →
  p ≠ EmptyString →
  let assemble mods :=
    spec_with_base (baseUrl o)
      (spec_final_path (signature o) (String.concat "/" mods)) in
  (plain o = Some true →
   build this (Some o) h
   = Some (assemble (ts ++ ["plain"; p]),
           <[fresh (dom h) := ts ++ ["plain"; p]]> h))
  ∧ (plain o ≠ Some true →
     build this (Some o) h
     = Some (assemble (ts ++ [encodeFilePath p]),
             <[fresh (dom h) := ts ++ [encodeFilePath p]]> h))
  ∧ ["plain"; p] ≠ [encodeFilePath p].
Proof.
  intros Hl Hpath Hp assemble.
  rewrite (build_run _ _ _ _ Hl).
  unfold spec_build, spec_build_store, spec_core_path, spec_file_segment.
  simpl. rewrite Hpath. simpl.
  destruct (decide (p = EmptyString)) as [|_]; [done|].
  split; [|split; [|done]]; intros Hplain.
  - by rewrite bool_decide_eq_true_2.
  - by rewrite bool_decide_eq_false_2.
Qed.

(** C8: for a non-empty path, a base URL that is present and non-empty
    gives [baseUrl + "/" + finalPath], with nothing before the base URL and
    one slash after it; an absent or empty base URL gives
    ["/" + finalPath]. *)
Theorem build_base_url (this : t) (o : BuildOptions) (p : string)
  (ts : list string) (h : heap) :
  h !! modifiers this = Some ts →
  path o = Some p →
  p ≠ EmptyString →
  let finalPath :=
    spec_final_path (signature o) (spec_core_path ts (plain o) p) in
  (∀ b, baseUrl o = Some b → b ≠ EmptyString →
        result (build this (Some o)) h = Some (b +:+ "/" +:+ finalPath))
  ∧ (baseUrl o = None ∨ baseUrl o = Some EmptyString →
     result (build this (Some o)) h = Some ("/" +:+ finalPath)).
Proof.
  intros Hl Hpath Hp finalPath. unfold result.
  rewrite (build_run _ _ _ _ Hl). simpl.
  unfold spec_build. simpl. rewrite Hpath. simpl.
  destruct (decide (p = EmptyString)) as [|_]; [done|].
  split.
  - intros b -> Hb. simpl. by destruct (decide (b = EmptyString)).
  - by intros [->| ->].
Qed.

End assembly.

(** ** The chain and the store *)

Section frame.
Context `{Numbers} `{Utils} `{transformers.Encoders}.

(** C4: after any sequence of chain-method invocations, the chain holds the
    tokens of the invocations after its earlier tokens, in invocation
    order, and the bare form of [build] is their join by a slash: no token
    is moved or dropped, whichever methods are invoked, how often and in
    which order. *)
Theorem chain_order_preserved (this : t) (cs : list call)
  (ts : list string) (h : heap) :
  h !! modifiers this = Some ts →
  ∃ h', invoke_all cs this h = Some (this, h')
        ∧ h' !! modifiers this = Some (ts ++ map token cs)
        ∧ build this None h'
          = Some (String.concat "/" (ts ++ map token cs), h').
Proof.
  intros Hl. eexists. split; [by apply invoke_all_run|].
  assert (Hl' : <[modifiers this := ts ++ map token cs]> h !! modifiers this
                = Some (ts ++ map token cs)) by apply lookup_insert_eq.
  split; [done|]. by rewrite (build_run _ _ _ _ Hl').
Qed.

(** On a chain that [pb()] has just made, the bare form is the join of the
    invocations' tokens alone. *)
Lemma pb_chain_order (cs : list call) (h : heap) :
  result (this ← pb; this' ← invoke_all cs this; build this' None) h
  = Some (String.concat "/" (map token cs)).
Proof.
  set (this := {| modifiers := fresh (dom h) |}).
  assert (Hl : <[fresh (dom h) := []]> h !! modifiers this = Some [])
    by apply lookup_insert_eq.
  unfold result. rewrite (bind_run _ _ _ _ _ (pb_run h)).
  rewrite (bind_run _ _ _ _ _ (invoke_all_run cs this [] _ Hl)).
  by rewrite (build_run _ _ _ _ (lookup_insert_eq _ _ _)).
Qed.

(** C6: [clone] yields a chain on an array of its own that holds the same
    tokens.  Appending to the clone leaves every [build] of the original as
    it was, and appending to the original after cloning leaves every
    [build] of the clone as it was. *)
Theorem clone_independent (this : t) (ts : list string) (cs : list call)
  (options : option BuildOptions) (h : heap) :
  h !! modifiers this = Some ts →
  ∃ c h1,
    clone this h = Some (c, h1)
    ∧ modifiers c ≠ modifiers this
    ∧ h1 !! modifiers c = Some ts
    ∧ h1 !! modifiers this = Some ts
    ∧ result (build this options) h1 = Some (spec_build ts options)
    ∧ result (build c options) h1 = Some (spec_build ts options)
    ∧ (∃ h2, invoke_all cs c h1 = Some (c, h2)
             ∧ h2 !! modifiers c = Some (ts ++ map token cs)
             ∧ result (build this options) h2
               = result (build this options) h1)
    ∧ (∃ h3, invoke_all cs this h1 = Some (this, h3)
             ∧ h3 !! modifiers this = Some (ts ++ map token cs)
             ∧ result (build c options) h3 = result (build c options) h1).
Proof.
  intros Hl.
  pose proof (fresh_ne _ _ _ Hl) as Hne.
  set (c := {| modifiers := fresh (dom h) |}).
  set (h1 := <[fresh (dom h) := ts]> h).
  assert (Hc : h1 !! modifiers c = Some ts) by apply lookup_insert_eq.
  assert (Ht : h1 !! modifiers this = Some ts)
    by (unfold h1; by rewrite lookup_insert_ne).
  exists c, h1. unfold result.
  rewrite (build_run this _ _ _ Ht), (build_run c _ _ _ Hc).
  repeat split; try done.
  - by apply clone_run.
  - eexists. split; [by apply invoke_all_run|].
    split; [apply lookup_insert_eq|].
    erewrite build_run; [done|].
    rewrite lookup_insert_ne; [done|]. simpl. congruence.
  - eexists. split; [by apply invoke_all_run|].
    split; [apply lookup_insert_eq|].
    erewrite build_run; [done|].
    rewrite lookup_insert_ne; [done|]. simpl. congruence.
Qed.

(** C7: [build] leaves the chain's tokens, and every other array that
    existed before the call, as they were: the file segment goes to a copy
    at a new reference.  A later [build], with any options, yields what it
    would have yielded before, and a [build] after further invocations
    reads the tokens the chain holds by then. *)
Theorem build_leaves_chain (this : t) (options : option BuildOptions)
  (ts : list string) (h : heap) :
  h !! modifiers this = Some ts →
  ∃ r h',
    build this options h = Some (r, h')
    ∧ h' !! modifiers this = Some ts
    ∧ (∀ arr items, h !! arr = Some items → h' !! arr = Some items)
    ∧ (∀ options',
         result (build this options') h' = result (build this options') h)
    ∧ (∀ cs options',
         result (this' ← invoke_all cs this; build this' options') h'
         = Some (spec_build (ts ++ map token cs) options')).
Proof.
  intros Hl.
  pose proof (spec_build_store_frame ts ts options h _ Hl) as Hl'.
  eexists _, _. split; [by apply build_run|].
  split; [done|]. split; [|split].
  - intros arr items Harr. by apply spec_build_store_frame.
  - intros options'. unfold result.
    by rewrite (build_run _ _ _ _ Hl), (build_run _ _ _ _ Hl').
  - intros cs options'. unfold result.
    rewrite (bind_run _ _ _ _ _ (invoke_all_run cs _ _ _ Hl')).
    by rewrite (build_run _ _ _ _ (lookup_insert_eq _ _ _)).
Qed.

End frame.

(** ** The single use of a modifier *)

Section single_use.
Context `{Numbers} `{transformers.Encoders}.

(** A method that a handle's type lacks is invoked nowhere in a chain that
    type-checks on it. *)
Lemma typechecks_absent (T : handle) (chain : list method) (m : method) :
  m ∉ T → typechecks T chain = true → m ∉ chain.
Proof.
  revert T. induction chain as [|m' chain IH]; intros T Hm Hty.
  - apply not_elem_of_nil.
  - simpl in Hty. apply andb_true_iff in Hty as [Hin Hty].
    apply bool_decide_eq_true in Hin.
    apply not_elem_of_cons. split; [by intros ->|].
    apply (IH (Omit T (omitted m'))); [|done].
    unfold Omit. rewrite list_elem_of_filter. by intros [_ ?].
Qed.

Lemma filter_absent (chain : list method) (m : method) :
  m ∉ chain → filter (λ m', m' = m) chain = [].
Proof.
  induction chain as [|m' chain IH]; [done|].
  intros [Hne Hnot]%not_elem_of_cons.
  rewrite filter_cons. destruct (decide (m' = m)); [congruence|by apply IH].
Qed.

(** X6: every method whose return type omits the method itself can be invoked
    at most once in a chain that type-checks: all but [filename]. *)
Lemma typechecks_at_most_once (T : handle) (chain : list method)
  (m : method) :
  omitted m = m → typechecks T chain = true →
  length (filter (λ m', m' = m) chain) ≤ 1.
Proof.
  intros Hom. revert T. induction chain as [|m' chain IH]; intros T Hty.
  - simpl. lia.
  - simpl in Hty. apply andb_true_iff in Hty as [_ Hty].
    rewrite filter_cons. destruct (decide (m' = m)) as [->|Hne].
    + assert (Hnot : m ∉ chain).
      { apply (typechecks_absent (Omit T (omitted m))); [|done].
        rewrite Hom. unfold Omit. rewrite list_elem_of_filter.
        by intros [? _]. }
      rewrite (filter_absent _ _ Hnot). simpl. lia.
    + by apply (IH (Omit T (omitted m'))).
Qed.

(** C5, at the input where the code departs from it: [filename] is
    declared to return [Omit<T, 'dpr'>], so the handle it yields still has
    [filename].  The chain [pb().filename(a).filename(b)] type-checks and
    leaves two [filename] tokens in the chain; what the handle has lost
    is [dpr]. *)
Theorem filename_invoked_twice (a b : transformers.FileNameOptions)
  (h : heap) :
  omitted filename_ = dpr_
  ∧ typechecks ParamBuilder_methods
      (map method_of [Filename a; Filename b]) = true
  ∧ invocations filename_ [Filename a; Filename b] = 2
  ∧ (∃ c h', (this ← pb; invoke_all [Filename a; Filename b] this) h
             = Some (c, h')
             ∧ h' !! modifiers c
               = Some [transformers.fileName a; transformers.fileName b])
  ∧ typechecks ParamBuilder_methods [filename_; dpr_] = false.
Proof.
  split; [done|]. split; [done|]. split; [done|]. split; [|done].
  set (this := {| modifiers := fresh (dom h) |}).
  assert (Hl : <[fresh (dom h) := []]> h !! modifiers this = Some [])
    by apply lookup_insert_eq.
  eexists _, _. rewrite (bind_run _ _ _ _ _ (pb_run h)).
  rewrite (invoke_all_run _ this [] _ Hl).
  split; [done|]. apply lookup_insert_eq.
Qed.

End single_use.

(** ** The transformers *)

Section tokens.
Context `{Numbers}.

(** C9: [enlarge()] is the stringifier's token for the prefix [el] and the
    one boolean [true], which under the rendering of booleans as 1/0 is
    [el:1]; the prefix is none of the specification's modifier table. *)
Theorem enlarge_token :
  transformers.enlarge = stringifyOptions "el" [PBool true]
  ∧ transformers.enlarge = "el:1"
  ∧ "el" ∉ spec_modifier_table.*2.
Proof.
  split; [done|]. split; [done|].
  intros Hin. repeat (apply elem_of_cons in Hin as [?|Hin]; [done|]).
  by apply elem_of_nil in Hin.
Qed.

(** C10: for every number, within the documented range from 0 to 1 or not,
    [backgroundAlpha] is the stringifier's token for the prefix [bga] and
    that one number, that is [bga:] followed by the number's rendering.
    The function is total: it checks no range and has no failing path.
    The prefix is none of the specification's modifier table. *)
Theorem backgroundAlpha_token (percentage : number) :
  transformers.backgroundAlpha percentage
  = stringifyOptions "bga" [PNumber percentage]
  ∧ transformers.backgroundAlpha percentage
    = "bga:" +:+ Number_toString percentage
  ∧ "bga" ∉ spec_modifier_table.*2.
Proof.
  split; [done|]. split; [done|].
  intros Hin. repeat (apply elem_of_cons in Hin as [?|Hin]; [done|]).
  by apply elem_of_nil in Hin.
Qed.

End tokens.

(** ** The theorems at concrete inputs *)

Lemma build_signature_covers_core_path_witness :
  Demo.store0 !! modifiers Demo.chain0 = Some ["rs:fit:300:200"; "q:80"]
  ∧ path Demo.options_signed = Some "/a.png"
  ∧ signature Demo.options_signed = Some Demo.signature0
  ∧ result (@build Demo.utils Demo.chain0 (Some Demo.options_signed))
      Demo.store0
    = Some ("https://cdn.example/"
            +:+ "SzpTcnM6Zml0OjMwMDoyMDAvcTo4MC9MMkV1Y0c1bg"
            +:+ "/rs:fit:300:200/q:80/L2EucG5n").
Proof.
  split; [reflexivity|]. split; [reflexivity|]. split; [reflexivity|].
  apply (@build_signature_covers_core_path Demo.utils Demo.chain0
           Demo.options_signed "/a.png" Demo.signature0
           ["rs:fit:300:200"; "q:80"] Demo.store0);
    [reflexivity | reflexivity | discriminate | reflexivity].
Defined.

Lemma build_without_path_witness :
  Demo.store0 !! modifiers Demo.chain0 = Some ["rs:fit:300:200"; "q:80"]
  ∧ path Demo.options_no_path = None
  ∧ @build Demo.utils Demo.chain0 (Some Demo.options_no_path) Demo.store0
    = Some ("rs:fit:300:200/q:80", Demo.store0).
Proof.
  split; [reflexivity|]. split; [reflexivity|].
  apply (@build_without_path Demo.utils Demo.chain0
           (Some Demo.options_no_path) ["rs:fit:300:200"; "q:80"]
           Demo.store0).
  - reflexivity.
  - right. exists Demo.options_no_path. split; [reflexivity|].
    left. reflexivity.
Defined.

Lemma build_file_segment_witness :
  Demo.store0 !! modifiers Demo.chain0 = Some ["rs:fit:300:200"; "q:80"]
  ∧ path Demo.options_plain = Some "/a.png"
  ∧ result (@build Demo.utils Demo.chain0 (Some Demo.options_plain))
      Demo.store0
    = Some "/rs:fit:300:200/q:80/plain//a.png".
Proof.
  split; [reflexivity|]. split; [reflexivity|].
  destruct (@build_file_segment Demo.utils Demo.chain0 Demo.options_plain
              "/a.png" ["rs:fit:300:200"; "q:80"] Demo.store0)
    as (Hplain & _ & _); [reflexivity | reflexivity | discriminate |].
  unfold result. rewrite Hplain; reflexivity.
Defined.

Lemma build_base_url_witness :
  Demo.store0 !! modifiers Demo.chain0 = Some ["rs:fit:300:200"; "q:80"]
  ∧ path Demo.options0 = Some "/a.png"
  ∧ result (@build Demo.utils Demo.chain0 (Some Demo.options0)) Demo.store0
    = Some "https://cdn.example/rs:fit:300:200/q:80/L2EucG5n".
Proof.
  split; [reflexivity|]. split; [reflexivity|].
  destruct (@build_base_url Demo.utils Demo.chain0 Demo.options0
              "/a.png" ["rs:fit:300:200"; "q:80"] Demo.store0)
    as (Hbase & _); [reflexivity | reflexivity | discriminate |].
  apply (Hbase "https://cdn.example"); [reflexivity | discriminate].
Defined.

Lemma chain_order_preserved_witness :
  Demo.store0 !! modifiers Demo.chain0 = Some ["rs:fit:300:200"; "q:80"]
  ∧ ∃ h',
      @invoke_all Demo.numbers Demo.encoders Demo.calls0 Demo.chain0
        Demo.store0 = Some (Demo.chain0, h')
      ∧ h' !! modifiers Demo.chain0
        = Some ["rs:fit:300:200"; "q:80"; "blur:5"; "rot:90"]
      ∧ @build Demo.utils Demo.chain0 None h'
        = Some ("rs:fit:300:200/q:80/blur:5/rot:90", h').
Proof.
  split; [reflexivity|].
  apply (@chain_order_preserved Demo.numbers Demo.utils Demo.encoders
           Demo.chain0 Demo.calls0 ["rs:fit:300:200"; "q:80"] Demo.store0).
  reflexivity.
Defined.

Lemma clone_independent_witness :
  Demo.store0 !! modifiers Demo.chain0 = Some ["rs:fit:300:200"; "q:80"]
  ∧ ∃ c h1,
      clone Demo.chain0 Demo.store0 = Some (c, h1)
      ∧ modifiers c ≠ modifiers Demo.chain0
      ∧ (∃ h2,
           @invoke_all Demo.numbers Demo.encoders Demo.calls0 c h1
           = Some (c, h2)
           ∧ result (@build Demo.utils Demo.chain0 (Some Demo.options0)) h2
             = result (@build Demo.utils Demo.chain0 (Some Demo.options0))
                 h1).
Proof.
  split; [reflexivity|].
  destruct (@clone_independent Demo.numbers Demo.utils Demo.encoders
              Demo.chain0 ["rs:fit:300:200"; "q:80"] Demo.calls0
              (Some Demo.options0) Demo.store0)
    as (c & h1 & Hclone & Hne & _ & _ & _ & _ & (h2 & Hinv & _ & Hres) & _);
    [reflexivity|].
  exists c, h1. split; [exact Hclone|]. split; [exact Hne|].
  exists h2. split; [exact Hinv | exact Hres].
Defined.

Lemma build_leaves_chain_witness :
  Demo.store0 !! modifiers Demo.chain0 = Some ["rs:fit:300:200"; "q:80"]
  ∧ ∃ r h',
      @build Demo.utils Demo.chain0 (Some Demo.options_plain) Demo.store0
      = Some (r, h')
      ∧ h' !! modifiers Demo.chain0 = Some ["rs:fit:300:200"; "q:80"].
Proof.
  split; [reflexivity|].
  destruct (@build_leaves_chain Demo.numbers Demo.utils Demo.encoders
              Demo.chain0 (Some Demo.options_plain)
              ["rs:fit:300:200"; "q:80"] Demo.store0)
    as (r & h' & Hbuild & Hsame & _); [reflexivity|].
  exists r, h'. split; [exact Hbuild | exact Hsame].
Defined.

(** ** More on the builder: sharing, composition and the handle types *)

Lemma string_app_assoc (s1 s2 s3 : string) :
  (s1 +:+ s2) +:+ s3 = s1 +:+ (s2 +:+ s3).
Proof.
  induction s1 as [|a s1 IH]; [done|].
  change (String a ((s1 +:+ s2) +:+ s3) = String a (s1 +:+ (s2 +:+ s3))).
  by rewrite IH.
Qed.

(** The join of two non-empty lists is the two joins around one
    separator. *)
Lemma concat_app (sep : string) (l1 l2 : list string) :
  l1 ≠ [] → l2 ≠ [] →
  String.concat sep (l1 ++ l2)
  = String.concat sep l1 +:+ (sep +:+ String.concat sep l2).
Proof.
  intros Hl1 Hl2. induction l1 as [|x [|x' l1] IH]; [done| |].
  - destruct l2 as [|y l2]; [done|]. reflexivity.
  - change (String.concat sep ((x :: x' :: l1) ++ l2))
      with (x +:+ (sep +:+ String.concat sep ((x' :: l1) ++ l2))).
    rewrite IH by done.
    change (String.concat sep (x :: x' :: l1))
      with (x +:+ (sep +:+ String.concat sep (x' :: l1))).
    by rewrite !string_app_assoc.
Qed.

Section sharing.
Context `{Numbers} `{Utils} `{transformers.Encoders}.

(** A chain method yields the handle it was invoked on, or fails. *)
Lemma invoke_returns_this (c : call) (this r : t) (h h' : heap) :
  invoke c this h = Some (r, h') → r = this.
Proof.
  destruct c; simpl;
    unfold autoRotate, background, blur, cacheBuster, crop, dpr, filename,
      format, gravity, maxBytes, pad, preset, quality, resize, rotate,
      sharpen, stripColorProfile, stripMetadata, trim, watermark,
      mbind, M_bind, array_push;
    (destruct (h !! modifiers this); simpl; [|done]);
    by intros [= <- _].
Qed.

(** X1: the constructor keeps the array it is given: it allocates nothing, and
    two instances made from one array share their tokens, so that what is
    appended through one is built by the other. *)
Theorem constructor_shares_array (arr : loc) (ts : list string)
  (cs : list call) (options : option BuildOptions) (h : heap) :
  h !! arr = Some ts →
  new (Some arr) h = Some ({| modifiers := arr |}, h)
  ∧ result (a ← new (Some arr); b ← new (Some arr);
            invoke_all cs a;; build b options) h
    = Some (spec_build (ts ++ map token cs) options).
Proof.
  intros Hl. split; [done|]. unfold result.
  set (a := {| modifiers := arr |}).
  assert (Hnew : new (Some arr) h = Some (a, h)) by done.
  rewrite (bind_run _ _ _ _ _ Hnew), (bind_run _ _ _ _ _ Hnew).
  rewrite (bind_run _ _ _ _ _ (invoke_all_run cs a ts h Hl)).
  by rewrite (build_run a _ _ _ (lookup_insert_eq _ _ _)).
Qed.

(** X2: two chains made by two calls of [pb()] are on different arrays: what is
    appended to the first is built by the first and not by the second,
    which stays empty. *)
Theorem pb_chains_independent (cs : list call)
  (options : option BuildOptions) (h : heap) :
  result (a ← pb; b ← pb; invoke_all cs a;; build b options) h
  = Some (spec_build [] options)
  ∧ result (a ← pb; b ← pb; invoke_all cs a;; build a options) h
    = Some (spec_build (map token cs) options).
Proof.
  set (a := {| modifiers := fresh (dom h) |}).
  set (h1 := <[fresh (dom h) := []]> h).
  set (b := {| modifiers := fresh (dom h1) |}).
  set (h2 := <[fresh (dom h1) := []]> h1).
  assert (Ha1 : h1 !! modifiers a = Some []) by apply lookup_insert_eq.
  pose proof (fresh_ne _ _ _ Ha1) as Hne.
  assert (Ha : h2 !! modifiers a = Some [])
    by (unfold h2; by rewrite lookup_insert_ne).
  assert (Hb : h2 !! modifiers b = Some []) by apply lookup_insert_eq.
  unfold result.
  rewrite !(bind_run _ _ _ _ _ (pb_run h)).
  fold a h1. rewrite !(bind_run _ _ _ _ _ (pb_run h1)). fold b h2.
  rewrite !(bind_run _ _ _ _ _ (invoke_all_run cs a [] h2 Ha)).
  split.
  - assert (Hb' : <[modifiers a := [] ++ map token cs]> h2 !! modifiers b
                  = Some []).
    { rewrite lookup_insert_ne; [done|]. exact (λ Heq, Hne (eq_sym Heq)). }
    by rewrite (build_run b _ _ _ Hb').
  - by rewrite (build_run a _ _ _ (lookup_insert_eq _ _ _)).
Qed.

(** X3: because every chain method returns [this], a fluent chain is the same
    computation as separate statements on the one handle: invoking [cs1]
    and then [cs2] on [this] is invoking [cs1 ++ cs2] fluently. *)
Theorem fluent_is_sequential (cs1 cs2 : list call) (this : t) (h : heap) :
  invoke_all (cs1 ++ cs2) this h
  = (invoke_all cs1 this;; invoke_all cs2 this) h.
Proof.
  revert h. induction cs1 as [|c cs1 IH]; intros h; [done|].
  simpl. unfold mbind, M_bind in *.
  destruct (invoke c this h) as [[r h']|] eqn:Hc; [|done].
  apply invoke_returns_this in Hc as ->. apply IH.
Qed.

(** X4: with a non-empty path, the core path of a non-empty chain is the bare
    form of [build], one slash and the file segment; for an empty chain it
    is the file segment alone, with no slash before it. *)
Theorem build_extends_bare_form (this : t) (o : BuildOptions) (p : string)
  (ts : list string) (h : heap) :
  h !! modifiers this = Some ts →
  path o = Some p →
  p ≠ EmptyString →
  ∃ bare,
    result (build this None) h = Some bare
    ∧ result (build this (Some o)) h
      = Some (spec_with_base (baseUrl o)
                (spec_final_path (signature o)
                   (if decide (ts = [])
                    then String.concat "/" (spec_file_segment (plain o) p)
                    else bare
                         +:+ ("/"
                         +:+ String.concat "/"
                               (spec_file_segment (plain o) p))))).
Proof.
  intros Hl Hpath Hp. exists (String.concat "/" ts). unfold result.
  rewrite !(build_run _ _ _ _ Hl). simpl. split; [done|]. f_equal.
  unfold spec_build. simpl. rewrite Hpath. simpl.
  destruct (decide (p = EmptyString)) as [|_]; [done|].
  unfold spec_core_path. do 2 f_equal.
  destruct (decide (ts = [])) as [->|Hts]; [done|].
  apply concat_app; [done|].
  unfold spec_file_segment. by destruct (bool_decide _).
Qed.

End sharing.

Section handles.

(** A fluent chain type-checks on a handle exactly when every method it
    invokes is a member of the handle's type and follows no call whose
    return type omits it. *)
Lemma typechecks_spec (T : handle) (chain : list method) :
  typechecks T chain = true
  ↔ ∀ i m, chain !! i = Some m →
           m ∈ T
           ∧ ∀ j m', j < i → chain !! j = Some m' → omitted m' ≠ m.
Proof.
  revert T. induction chain as [|m0 chain IH]; intros T; simpl.
  - split; [|done]. by intros _ i m Hi.
  - rewrite andb_true_iff, bool_decide_eq_true, IH. split.
    + intros [Hm0 Hrest] [|i] m Hi; simpl in Hi.
      * injection Hi as <-. split; [done|]. intros j m' Hj. lia.
      * destruct (Hrest i m Hi) as [Hin Hbefore].
        apply list_elem_of_filter in Hin as [Hne Hin].
        split; [done|]. intros [|j] m' Hj Hm'; simpl in Hm'.
        -- injection Hm' as <-. congruence.
        -- apply (Hbefore j m'); [lia|done].
    + intros Hall. split.
      * by apply (Hall 0 m0).
      * intros i m Hi. destruct (Hall (S i) m Hi) as [Hin Hbefore].
        split.
        -- apply list_elem_of_filter. split; [|done].
           intros ->. by apply (Hbefore 0 m0); [lia| |].
        -- intros j m' Hj Hm'. apply (Hbefore (S j) m'); [lia|done].
Qed.

Lemma ParamBuilder_methods_all (m : method) : m ∈ ParamBuilder_methods.
Proof. unfold ParamBuilder_methods. destruct m; set_solver. Qed.

(** X5: on the handle [pb()] yields, a fluent chain type-checks exactly when no
    method is invoked after a call whose declared return type omits it;
    the order of the calls is otherwise free. *)
Theorem typechecks_iff_not_omitted_before (chain : list method) :
  typechecks ParamBuilder_methods chain = true
  ↔ ∀ i j m m', j < i → chain !! j = Some m' → chain !! i = Some m →
                omitted m' ≠ m.
Proof.
  rewrite typechecks_spec. split.
  - intros Hall i j m m' Hj Hm' Hm.
    destruct (Hall i m Hm) as [_ Hbefore]. by apply (Hbefore j m').
  - intros Hall i m Hm. split; [apply ParamBuilder_methods_all|].
    intros j m' Hj Hm'. by apply (Hall i j m m').
Qed.

(** X7: [filename] can be invoked any number of times in a row: the types put
    no bound on the length of a chain. *)
Theorem filename_unbounded (n : nat) :
  typechecks ParamBuilder_methods (replicate n filename_) = true.
Proof.
  apply typechecks_spec. intros i m Hi.
  apply lookup_replicate in Hi as [-> _].
  split; [apply ParamBuilder_methods_all|].
  intros j m' _ Hm'. by apply lookup_replicate in Hm' as [-> _].
Qed.

(** X8: after [filename], [dpr] is gone from the handle: whatever the handle
    and whatever is invoked before, between and after, a chain that
    invokes [dpr] after [filename] does not type-check. *)
Theorem dpr_after_filename_rejected (T : handle)
  (before between after : list method) :
  typechecks T (before ++ filename_ :: between ++ dpr_ :: after) = false.
Proof.
  apply not_true_is_false. intros Hty.
  pose proof (proj1 (typechecks_spec _ _) Hty
                (length before + S (length between)) dpr_) as Hdpr.
  destruct Hdpr as [_ Hbefore].
  - rewrite lookup_app_r by lia.
    replace (length before + S (length between) - length before)
      with (S (length between)) by lia.
    simpl. by apply list_lookup_middle.
  - apply (Hbefore (length before) filename_); [lia| |done].
    by apply list_lookup_middle.
Qed.

End handles.

(** ** These theorems at concrete inputs *)

Lemma constructor_shares_array_witness :
  Demo.store0 !! 1%positive = Some ["rs:fit:300:200"; "q:80"]
  ∧ result (a ← new (Some 1%positive); b ← new (Some 1%positive);
            @invoke_all Demo.numbers Demo.encoders Demo.calls0 a;;
            @build Demo.utils b None) Demo.store0
    = Some "rs:fit:300:200/q:80/blur:5/rot:90".
Proof.
  split; [reflexivity|].
  destruct (@constructor_shares_array Demo.numbers Demo.utils Demo.encoders
              1%positive ["rs:fit:300:200"; "q:80"] Demo.calls0 None
              Demo.store0) as [_ Hshared]; [reflexivity|].
  exact Hshared.
Defined.

Lemma build_extends_bare_form_witness :
  Demo.store0 !! modifiers Demo.chain0 = Some ["rs:fit:300:200"; "q:80"]
  ∧ path Demo.options_plain = Some "/a.png"
  ∧ ∃ bare,
      result (@build Demo.utils Demo.chain0 None) Demo.store0 = Some bare
      ∧ result (@build Demo.utils Demo.chain0 (Some Demo.options_plain))
          Demo.store0
        = Some ("/" +:+ (bare +:+ "/plain//a.png")).
Proof.
  split; [reflexivity|]. split; [reflexivity|].
  destruct (@build_extends_bare_form Demo.utils Demo.chain0
              Demo.options_plain "/a.png" ["rs:fit:300:200"; "q:80"]
              Demo.store0) as (bare & Hbare & Hfull);
    [reflexivity | reflexivity | discriminate |].
  exists bare. split; [exact Hbare|]. exact Hfull.
Defined.

Lemma typechecks_at_most_once_witness :
  omitted blur_ = blur_
  ∧ typechecks ParamBuilder_methods [rotate_; blur_; crop_] = true
  ∧ length (filter (λ m', m' = blur_) [rotate_; blur_; crop_]) ≤ 1.
Proof.
  split; [reflexivity|]. split; [reflexivity|].
  apply (typechecks_at_most_once ParamBuilder_methods
           [rotate_; blur_; crop_] blur_); reflexivity.
Defined.
